(** * tdlchar: a shallow embedding of the character-device driver

    The driver (tdlchar.c) keeps four pieces of global state: the array
    [message], its length [size_of_message], the counter [numberOpens] and
    the mutex [tdlchar_mutex].  The four file operations [dev_open],
    [dev_read], [dev_write] and [dev_release] are embedded as functions on a
    record that holds these globals.  A store outside the array is undefined
    behaviour in C: such executions end in [Undefined]. *)

From Stdlib Require Import ZArith Lia.
From stdpp Require Import base tactics option list.

Local Open Scope Z_scope.

(** ** C integer conversions *)

Module C.

(** Conversion to [int] (32 bits, two's complement). *)
Definition to_int (z : Z) : Z := (z + 2 ^ 31) mod 2 ^ 32 - 2 ^ 31.

(** Conversion to [short] (16 bits, two's complement). *)
Definition to_short (z : Z) : Z := (z + 2 ^ 15) mod 2 ^ 16 - 2 ^ 15.

(** Conversion to [unsigned long] (64 bits). *)
Definition to_ulong (z : Z) : Z := z mod 2 ^ 64.

Definition EFAULT : Z := 14.
Definition EBUSY : Z := 16.

End C.

(** ** Executions that may leave the array *)

Inductive exec (A : Type) : Type :=
| Done (a : A)
| Undefined.

Arguments Done {A} a.
Arguments Undefined {A}.

#[global] Instance exec_bind : MBind exec := fun A B k m =>
  match m with
  | Done a => k a
  | Undefined => Undefined
  end.

(** ** Device state: the globals of tdlchar.c

    A [char] is kept as the value of its eight bits, [0 .. 255]; the
    comparisons of [toupper] against ['a'] and ['z'] come out the same
    whether [char] is signed or not, since both letters are below 128.
    The mutex records its owner, as the kernel's [struct mutex] does. *)

Record tdlchar : Type := mkDev {
  message : list Z;            (* static char message[256] *)
  size_of_message : Z;         (* static short size_of_message *)
  numberOpens : Z;             (* static int numberOpens *)
  tdlchar_mutex : option nat   (* owner of the mutex, None when unlocked *)
}.

(** sizeof(message) *)
Definition MESSAGE_SIZE : nat := 256.

Definition init_state : tdlchar :=
  {| message := replicate MESSAGE_SIZE 0;
     size_of_message := 0;
     numberOpens := 0;
     tdlchar_mutex := None |}.

(** ** Kernel services used by the driver *)

(** [mutex_trylock]: 1 and the lock taken when it was free, 0 and no change
    when it is held. [current] is the calling task. *)
Definition mutex_trylock (m : option nat) (current : nat) : option nat * Z :=
  match m with
  | None => (Some current, 1)
  | Some _ => (m, 0)
  end.

Definition mutex_unlock (m : option nat) : option nat := None.

(** [copy_to_user (dst, src, n)]: [dst] is the caller's memory at the
    destination pointer, as far as it is writable.  The bytes that fit are
    copied, the result is the number of bytes that could not be copied. *)
Definition copy_to_user (dst src : list Z) (n : Z) : list Z * Z :=
  let k := Nat.min (Z.to_nat n) (length dst) in
  (take k src ++ drop k dst, n - Z.of_nat k).

(** [strlen] over an array: index of the first zero byte; scanning past the
    end of the array is undefined. *)
Fixpoint strlen (s : list Z) : exec nat :=
  match s with
  | [] => Undefined
  | c :: s' => if c =? 0 then Done 0%nat else n ← strlen s'; Done (S n)
  end.

(** [a[i] = v] on an array: undefined outside its bounds. *)
Definition store (a : list Z) (i : nat) (v : Z) : exec (list Z) :=
  if decide (i < length a)%nat then Done (<[i := v]> a) else Undefined.

(** ** The driver *)

(** 'a' = 97, 'z' = 122, 'a' - 'A' = 32.  The subtraction is only reached
    for 97 .. 122 and lands in 65 .. 90, so the conversion of the [int]
    difference back to [char] changes nothing. *)
Definition toupper (inChar : Z) : Z :=
  if (97 <=? inChar) && (inChar <=? 122) then inChar - (97 - 65) else inChar.

Definition dev_open (current : nat) (st : tdlchar) : tdlchar * Z :=
  match mutex_trylock (tdlchar_mutex st) current with
  | (_, 0) => (st, - C.EBUSY)
  | (m, _) =>
      ({| message := message st;
          size_of_message := size_of_message st;
          numberOpens := C.to_int (numberOpens st + 1);
          tdlchar_mutex := m |}, 0)
  end.

(** The result is the new device state, the caller's memory after the copy
    and the return value.  The parameter [len] of the C function is not
    used by its body. *)
Definition dev_read (st : tdlchar) (buffer : list Z) (len : Z)
  : tdlchar * list Z * Z :=
  let '(buffer', uncopied) :=
    copy_to_user buffer (message st) (C.to_ulong (size_of_message st)) in
  let error_count := C.to_int uncopied in
  if error_count =? 0 then
    ({| message := message st;
        size_of_message := 0;
        numberOpens := numberOpens st;
        tdlchar_mutex := tdlchar_mutex st |}, buffer', 0)
  else
    (st, buffer', - C.EFAULT).

(** for (i = 0; i < len; i++) message[i] = toupper(buffer[i]); *)
Fixpoint write_loop (buffer : list Z) (i : nat) (msg : list Z) : exec (list Z) :=
  match buffer with
  | [] => Done msg
  | c :: buffer' =>
      msg' ← store msg i (toupper c);
      write_loop buffer' (S i) msg'
  end.

(** [buffer] holds the [len] bytes of the payload: [len = length buffer].
    The loop index is an [int] compared with the [size_t] length; the first
    store outside the array happens at index 256, long before either type
    could wrap.  [return len] has no other path beside it. *)
Definition dev_write (st : tdlchar) (buffer : list Z) : exec (tdlchar * Z) :=
  let len := length buffer in
  m1 ← write_loop buffer 0 (message st);
  m2 ← store m1 len 0;
  n ← strlen m2;
  Done ({| message := m2;
           size_of_message := C.to_short (Z.of_nat n);
           numberOpens := numberOpens st;
           tdlchar_mutex := tdlchar_mutex st |}, Z.of_nat len).

Definition dev_release (st : tdlchar) : tdlchar * Z :=
  ({| message := message st;
      size_of_message := size_of_message st;
      numberOpens := numberOpens st;
      tdlchar_mutex := mutex_unlock (tdlchar_mutex st) |}, 0).

(** ** Sequences of file operations *)

Inductive op : Type :=
| Open (current : nat)
| Read (buffer : list Z) (len : Z)
| Write (buffer : list Z)
| Release.

Definition step (st : tdlchar) (o : op) : exec tdlchar :=
  match o with
  | Open current => Done (fst (dev_open current st))
  | Read buffer len => Done (fst (fst (dev_read st buffer len)))
  | Write buffer => r ← dev_write st buffer; Done (fst r)
  | Release => Done (fst (dev_release st))
  end.

Fixpoint run (ops : list op) (st : tdlchar) : exec tdlchar :=
  match ops with
  | [] => Done st
  | o :: ops' => st' ← step st o; run ops' st'
  end.

(** ** Properties of states *)

(** The data-model invariant: the array has its 256 bytes and the length
    counts bytes inside it, leaving room for the terminator. *)
Definition wf_state (st : tdlchar) : Prop :=
  length (message st) = MESSAGE_SIZE /\
  0 <= size_of_message st <= 255.

Definition is_lower (c : Z) : bool := (97 <=? c) && (c <=? 122).

(** The stored message, [message[0 .. size_of_message)]. *)
Definition stored (st : tdlchar) : list Z :=
  take (Z.to_nat (size_of_message st)) (message st).

Definition no_lowercase (st : tdlchar) : Prop :=
  forallb (fun c => negb (is_lower c)) (stored st) = true.

(** Length of the longest prefix free of zero bytes: what [strlen] sees of a
    payload once it is stored and terminated. *)
Fixpoint cstring_length (s : list Z) : nat :=
  match s with
  | [] => 0%nat
  | c :: s' => if c =? 0 then 0%nat else S (cstring_length s')
  end.

Definition no_zero_byte (s : list Z) : Prop := Forall (fun c => c <> 0) s.

Definition abc : list Z := [97; 98; 99].
Definition ABC : list Z := [65; 66; 67].

Example toupper_abc : map toupper abc = ABC.
Proof. reflexivity. Qed.

Example write_abc :
  dev_write init_state abc =
  Done ({| message := ABC ++ replicate 253 0; size_of_message := 3;
           numberOpens := 0; tdlchar_mutex := None |}, 3).
Proof. reflexivity. Qed.

(** ** Module load and unload: tdlchar_init and tdlchar_exit

    The registration services belong to the kernel.  What the driver does
    with them is kept as the list of calls it makes, each with the value
    the kernel returned; [kernel_after] reads such a list as the resources
    it leaves registered. *)

(** The globals the two functions share. *)
Record lkm : Type := mkLkm {
  majorNumber : Z;             (* static int majorNumber *)
  tdlcharClass : Z;            (* static struct class* tdlcharClass, NULL = 0 *)
  tdlcharDevice : Z            (* static struct device* tdlcharDevice *)
}.

Inductive kcall : Type :=
| register_chrdev (major ret : Z)
| unregister_chrdev (major : Z)
| class_create (ret : Z)
| class_unregister (cls : Z)
| class_destroy (cls : Z)
| device_create (cls devt ret : Z)
| device_destroy (cls devt : Z)
| mutex_init
| mutex_destroy.

(** linux/err.h: a pointer in the last 4095 addresses carries an errno. *)
Definition MAX_ERRNO : Z := 4095.

Definition IS_ERR (ptr : Z) : bool := 2 ^ 64 - MAX_ERRNO <=? ptr.

(** Conversion of a 64-bit pattern to [long]. *)
Definition to_long (z : Z) : Z := (z + 2 ^ 63) mod 2 ^ 64 - 2 ^ 63.

Definition PTR_ERR (ptr : Z) : Z := to_long ptr.

Definition ERR_PTR (error : Z) : Z := error mod 2 ^ 64.

(** linux/kdev_t.h: MINORBITS = 20.  The major is an [int], the shift is
    done on it, and the result is a [dev_t], which has 32 bits: what does
    not fit is cut off. *)
Definition MKDEV (ma mi : Z) : Z := (Z.lor (Z.shiftl ma 20) mi) mod 2 ^ 32.

Example MKDEV_small : MKDEV 240 0 = 251658240.
Proof. reflexivity. Qed.

Example MKDEV_wraps : MKDEV 5000 0 = 947912704.
Proof. reflexivity. Qed.

(** The three arguments are what [register_chrdev], [class_create] and
    [device_create] return when they are called.  The result is the
    globals, the calls made and the return value. *)
Definition tdlchar_init (chrdev_ret class_ret device_ret : Z) : lkm * list kcall * Z :=
  let majorNumber := C.to_int chrdev_ret in
  if majorNumber <? 0 then
    ({| majorNumber := majorNumber; tdlcharClass := 0; tdlcharDevice := 0 |},
     [register_chrdev 0 chrdev_ret], majorNumber)
  else
    let tdlcharClass := class_ret in
    if IS_ERR tdlcharClass then
      ({| majorNumber := majorNumber; tdlcharClass := tdlcharClass; tdlcharDevice := 0 |},
       [register_chrdev 0 chrdev_ret; class_create class_ret;
        unregister_chrdev majorNumber],
       C.to_int (PTR_ERR tdlcharClass))
    else
      let tdlcharDevice := device_ret in
      if IS_ERR tdlcharDevice then
        ({| majorNumber := majorNumber; tdlcharClass := tdlcharClass;
            tdlcharDevice := tdlcharDevice |},
         [register_chrdev 0 chrdev_ret; class_create class_ret;
          device_create tdlcharClass (MKDEV majorNumber 0) device_ret;
          class_destroy tdlcharClass; unregister_chrdev majorNumber],
         C.to_int (PTR_ERR tdlcharDevice))
      else
        ({| majorNumber := majorNumber; tdlcharClass := tdlcharClass;
            tdlcharDevice := tdlcharDevice |},
         [register_chrdev 0 chrdev_ret; class_create class_ret;
          device_create tdlcharClass (MKDEV majorNumber 0) device_ret;
          mutex_init],
         0).

Definition tdlchar_exit (g : lkm) : list kcall :=
  [mutex_destroy;
   device_destroy (tdlcharClass g) (MKDEV (majorNumber g) 0);
   class_unregister (tdlcharClass g);
   class_destroy (tdlcharClass g);
   unregister_chrdev (majorNumber g)].

(** What the kernel holds for the driver. *)
Inductive resource : Type :=
| Chrdev (major : Z)
| Class (cls : Z)
| Device (cls devt : Z)
| Mutex.

#[global] Instance resource_eq_dec : EqDecision resource.
Proof. solve_decision. Defined.

(** [live]: what is registered, newest first; [stray]: releases of
    something that was not registered at the time. *)
Record kernel : Type := mkKernel {
  live : list resource;
  stray : list resource
}.

Definition no_resources : kernel := {| live := []; stray := [] |}.

Fixpoint take_out (r : resource) (l : list resource) : option (list resource) :=
  match l with
  | [] => None
  | x :: l' => if decide (x = r) then Some l' else cons x <$> take_out r l'
  end.

Definition acquire (r : resource) (k : kernel) : kernel :=
  {| live := r :: live k; stray := stray k |}.

Definition release (r : resource) (k : kernel) : kernel :=
  match take_out r (live k) with
  | Some l => {| live := l; stray := stray k |}
  | None => {| live := live k; stray := stray k ++ [r] |}
  end.

Definition kernel_call (k : kernel) (c : kcall) : kernel :=
  match c with
  | register_chrdev _ ret => if C.to_int ret <? 0 then k else acquire (Chrdev (C.to_int ret)) k
  | unregister_chrdev major => release (Chrdev major) k
  | class_create ret => if IS_ERR ret then k else acquire (Class ret) k
  | class_unregister cls => release (Class cls) k
  | class_destroy cls => release (Class cls) k
  | device_create cls devt ret => if IS_ERR ret then k else acquire (Device cls devt) k
  | device_destroy cls devt => release (Device cls devt) k
  | mutex_init => acquire Mutex k
  | mutex_destroy => release Mutex k
  end.

Definition kernel_after (calls : list kcall) (k : kernel) : kernel :=
  foldl kernel_call k calls.

(** ** The user-space client: main of testtdlchar.c

    The system calls reach the driver through the kernel: a negative result
    of the file operation becomes -1 with [errno] set.  Of terminal input
    and output only the effect of [perror] on [errno] is kept;
    [stringToSend] is the array as [scanf] filled it. *)

Definition BUFFER_LENGTH : nat := 256.

Record client : Type := mkClient {
  exit_status : Z;             (* value returned by main *)
  fd : Z;                      (* descriptor from open, -1 when it failed *)
  receive : list Z;            (* static char receive[BUFFER_LENGTH] *)
  device : tdlchar
}.

(** Result, [errno] and the device after the call.  A successful open
    gets descriptor 3, the first one free after the standard streams. *)
Definition sys_open (current : nat) (dev : tdlchar) : Z * Z * tdlchar :=
  let '(dev', r) := dev_open current dev in
  if r <? 0 then (-1, - r, dev') else (3, 0, dev').

Definition sys_write (dev : tdlchar) (buf : list Z) : exec (Z * Z * tdlchar) :=
  w ← dev_write dev buf;
  let '(dev', r) := w in
  Done (if r <? 0 then (-1, - r, dev') else (r, 0, dev')).

Definition sys_read (dev : tdlchar) (buf : list Z) (count : Z)
  : Z * Z * list Z * tdlchar :=
  let '(dev', buf', r) := dev_read dev buf count in
  if r <? 0 then (-1, - r, buf', dev') else (r, 0, buf', dev').

(** [perror] is the C library's: it prints, and it may leave another value
    in [errno] than it found.  It is the function from [errno] before the
    call to [errno] after it; [main] returns [errno] as [perror] left it. *)
Definition main (perror : Z -> Z) (current : nat) (stringToSend : list Z)
  (dev : tdlchar) : exec client :=
  let receive := replicate BUFFER_LENGTH 0 in
  let '(fd, errno, dev) := sys_open current dev in
  if fd <? 0 then
    Done {| exit_status := perror errno; fd := fd; receive := receive; device := dev |}
  else
    n ← strlen stringToSend;
    w ← sys_write dev (take n stringToSend);
    let '(ret, errno, dev) := w in
    if ret <? 0 then
      Done {| exit_status := perror errno; fd := fd; receive := receive; device := dev |}
    else
      let '(ret, errno, receive, dev) :=
        sys_read dev receive (Z.of_nat BUFFER_LENGTH) in
      if ret <? 0 then
        Done {| exit_status := perror errno; fd := fd; receive := receive; device := dev |}
      else
        Done {| exit_status := 0; fd := fd; receive := receive; device := dev |}.

(** When the process ends the kernel closes its descriptor, which calls
    [dev_release]. *)
Definition process_exit (c : client) : tdlchar :=
  if fd c <? 0 then device c else fst (dev_release (device c)).

(** Number of bytes [dev_read] hands to the caller: what it asks
    [copy_to_user] for, less what [copy_to_user] reports as not copied. *)
Definition bytes_copied (st : tdlchar) (buffer : list Z) : Z :=
  C.to_ulong (size_of_message st)
  - snd (copy_to_user buffer (message st) (C.to_ulong (size_of_message st))).

(** ** Auxiliary notions for the further properties *)

(** Number of open calls in a sequence of operations. *)
Fixpoint open_calls (ops : list op) : Z :=
  match ops with
  | [] => 0
  | Open _ :: ops' => 1 + open_calls ops'
  | _ :: ops' => open_calls ops'
  end.

(** The array holds a terminator, and the length does not reach past it. *)
Definition terminated (st : tdlchar) : Prop :=
  exists n, strlen (message st) = Done n /\ size_of_message st <= Z.of_nat n.

(** The device as a successful open by [current] leaves it. *)
Definition held_by (current : nat) (dev : tdlchar) : tdlchar :=
  {| message := message dev;
     size_of_message := size_of_message dev;
     numberOpens := numberOpens dev + 1;
     tdlchar_mutex := Some current |}.

(** "Hello Todd" in a 256-byte array. *)
Definition hello_todd : list Z :=
  [72; 101; 108; 108; 111; 32; 84; 111; 100; 100] ++ replicate 246 0.

(** Closed goals about concrete runs of the driver are settled by running
    the embedding. *)
Ltac by_running := vm_compute; reflexivity.

Ltac refute_by_running H := vm_compute in H; discriminate H.

(** ** Integer conversions inside their range *)

Lemma to_int_small z : - 2 ^ 31 <= z < 2 ^ 31 -> C.to_int z = z.
Proof. intros Hz. unfold C.to_int. rewrite Z.mod_small; lia. Qed.

Lemma to_short_small z : - 2 ^ 15 <= z < 2 ^ 15 -> C.to_short z = z.
Proof. intros Hz. unfold C.to_short. rewrite Z.mod_small; lia. Qed.

Lemma to_ulong_small z : 0 <= z < 2 ^ 64 -> C.to_ulong z = z.
Proof. intros Hz. unfold C.to_ulong. apply Z.mod_small; lia. Qed.

(** ** The transform *)

Lemma toupper_lower c : 97 <= c <= 122 -> toupper c = c - 32.
Proof.
  intros [Ha Hz]. unfold toupper.
  apply Z.leb_le in Ha, Hz. rewrite Ha, Hz. reflexivity.
Qed.

Lemma toupper_other c : ~ (97 <= c <= 122) -> toupper c = c.
Proof.
  intros Hn. unfold toupper.
  destruct (97 <=? c) eqn:Ha; [|reflexivity].
  destruct (c <=? 122) eqn:Hz; [|reflexivity].
  apply Z.leb_le in Ha, Hz. lia.
Qed.

Lemma toupper_not_lower c : is_lower (toupper c) = false.
Proof.
  unfold is_lower, toupper.
  destruct (97 <=? c) eqn:Ha; destruct (c <=? 122) eqn:Hz; simpl.
  - apply Z.leb_le in Ha, Hz. apply andb_false_iff. left. apply Z.leb_gt. lia.
  - rewrite Ha, Hz. reflexivity.
  - rewrite Ha. reflexivity.
  - rewrite Ha. reflexivity.
Qed.

Lemma toupper_zero c : (toupper c =? 0) = (c =? 0).
Proof.
  unfold toupper.
  destruct (97 <=? c) eqn:Ha; destruct (c <=? 122) eqn:Hz; simpl; try reflexivity.
  apply Z.leb_le in Ha, Hz.
  transitivity false; [apply Z.eqb_neq | symmetry; apply Z.eqb_neq]; lia.
Qed.

Lemma toupper_byte c : 0 <= c < 256 -> 0 <= toupper c < 256.
Proof.
  intros Hc. destruct (decide (97 <= c <= 122)) as [Hl|Hl].
  - rewrite toupper_lower by done. lia.
  - rewrite toupper_other by done. lia.
Qed.

(** ** C strings *)

Lemma cstring_length_le s : (cstring_length s <= length s)%nat.
Proof.
  induction s as [|c s IH]; simpl; [lia|].
  destruct (c =? 0); lia.
Qed.

Lemma cstring_length_no_zero s : no_zero_byte s -> cstring_length s = length s.
Proof.
  induction 1 as [|c s Hc _ IH]; simpl; [reflexivity|].
  apply Z.eqb_neq in Hc. rewrite Hc, IH. reflexivity.
Qed.

Lemma cstring_length_toupper s : cstring_length (map toupper s) = cstring_length s.
Proof.
  induction s as [|c s IH]; simpl; [reflexivity|].
  rewrite toupper_zero, IH. reflexivity.
Qed.

(** [strlen] stops at the terminator that follows [s], or at a zero byte
    inside [s] when there is one. *)
Lemma strlen_terminated s t : strlen (s ++ 0 :: t) = Done (cstring_length s).
Proof.
  induction s as [|c s IH]; simpl; [reflexivity|].
  destruct (c =? 0); [reflexivity|]. rewrite IH. reflexivity.
Qed.

(** ** The copy loop of dev_write *)

Lemma write_loop_inside buffer : forall i msg,
  (i + length buffer <= length msg)%nat ->
  write_loop buffer i msg =
  Done (take i msg ++ map toupper buffer ++ drop (i + length buffer) msg).
Proof.
  induction buffer as [|c buffer IH]; intros i msg Hlen; simpl in *.
  - rewrite Nat.add_0_r, take_drop. reflexivity.
  - unfold store. rewrite decide_True by lia. simpl.
    rewrite IH by (rewrite length_insert; lia).
    f_equal. rewrite drop_insert_lt by lia.
    replace (S i + length buffer)%nat with (i + S (length buffer))%nat by lia.
    rewrite (take_S_r _ i (toupper c)) by (apply list_lookup_insert_eq; lia).
    rewrite take_insert_ge by lia. rewrite <- app_assoc. reflexivity.
Qed.

Lemma write_loop_outside buffer : forall i msg,
  (i <= length msg)%nat ->
  (length msg < i + length buffer)%nat ->
  write_loop buffer i msg = Undefined.
Proof.
  induction buffer as [|c buffer IH]; intros i msg Hi Hlen; simpl in *; [lia|].
  unfold store. destruct (decide (i < length msg)%nat) as [Hlt|Hlt]; [|reflexivity].
  simpl. apply IH; rewrite length_insert; lia.
Qed.

(** ** dev_write inside and outside the array *)

(** The state a write leaves behind when the payload and its terminator fit. *)
Definition written (st : tdlchar) (buffer : list Z) : tdlchar :=
  {| message := map toupper buffer ++ 0 :: drop (S (length buffer)) (message st);
     size_of_message := Z.of_nat (cstring_length buffer);
     numberOpens := numberOpens st;
     tdlchar_mutex := tdlchar_mutex st |}.

Lemma dev_write_inside st buffer :
  length (message st) = MESSAGE_SIZE ->
  (length buffer < MESSAGE_SIZE)%nat ->
  dev_write st buffer = Done (written st buffer, Z.of_nat (length buffer)).
Proof.
  intros Hmsg Hlen. unfold dev_write.
  rewrite write_loop_inside by (rewrite Hmsg; lia). simpl.
  assert (Hdrop : exists x, drop (length buffer) (message st)
                            = x :: drop (S (length buffer)) (message st)).
  { destruct (lookup_lt_is_Some_2 (message st) (length buffer)) as [x Hx];
      [rewrite Hmsg; lia|].
    exists x. apply drop_S. exact Hx. }
  destruct Hdrop as [x Hdrop]. rewrite Hdrop.
  unfold store. rewrite decide_True
    by (rewrite length_app, length_map; simpl; lia).
  simpl.
  replace (<[length buffer:=0]> (map toupper buffer ++ x :: drop (S (length buffer)) (message st)))
    with (map toupper buffer ++ 0 :: drop (S (length buffer)) (message st)).
  2:{ rewrite insert_app_r_alt by (rewrite length_map; lia).
      rewrite length_map, Nat.sub_diag. reflexivity. }
  rewrite strlen_terminated. simpl.
  rewrite cstring_length_toupper.
  pose proof (cstring_length_le buffer) as Hle.
  rewrite to_short_small by (unfold MESSAGE_SIZE in Hlen; lia).
  reflexivity.
Qed.

Lemma dev_write_outside st buffer :
  length (message st) = MESSAGE_SIZE ->
  (MESSAGE_SIZE <= length buffer)%nat ->
  dev_write st buffer = Undefined.
Proof.
  intros Hmsg Hlen. unfold dev_write.
  destruct (decide (length buffer = MESSAGE_SIZE)) as [Heq|Hne].
  - rewrite write_loop_inside by (rewrite Hmsg; lia). simpl.
    unfold store. rewrite decide_False; [reflexivity|].
    rewrite length_app, length_map, length_drop. lia.
  - rewrite write_loop_outside by lia. reflexivity.
Qed.

Lemma written_message_length st buffer :
  length (message st) = MESSAGE_SIZE ->
  (length buffer < MESSAGE_SIZE)%nat ->
  length (message (written st buffer)) = MESSAGE_SIZE.
Proof.
  intros Hmsg Hlen. simpl.
  rewrite length_app, length_map. simpl. rewrite length_drop. lia.
Qed.

Lemma written_prefix st buffer :
  take (length buffer) (message (written st buffer)) = map toupper buffer.
Proof.
  simpl. rewrite take_app_length'; [reflexivity|symmetry; apply length_map].
Qed.

Lemma written_stored st buffer :
  stored (written st buffer) = take (cstring_length buffer) (map toupper buffer).
Proof.
  unfold stored. simpl. rewrite Nat2Z.id.
  apply take_app_le. rewrite length_map. apply cstring_length_le.
Qed.

Lemma written_stored_no_zero st buffer :
  no_zero_byte buffer -> stored (written st buffer) = map toupper buffer.
Proof.
  intros Hnz. rewrite written_stored, cstring_length_no_zero by done.
  apply take_ge. rewrite length_map. lia.
Qed.

(** ** dev_read: the copy and its two outcomes *)

(** The state a successful read leaves behind. *)
Definition drained (st : tdlchar) : tdlchar :=
  {| message := message st;
     size_of_message := 0;
     numberOpens := numberOpens st;
     tdlchar_mutex := tdlchar_mutex st |}.

Lemma dev_read_copied st buffer len :
  0 <= size_of_message st < 2 ^ 15 ->
  (Z.to_nat (size_of_message st) <= length buffer)%nat ->
  dev_read st buffer len =
  (drained st, stored st ++ drop (Z.to_nat (size_of_message st)) buffer, 0).
Proof.
  intros Hsz Hfit. unfold dev_read, copy_to_user.
  rewrite to_ulong_small by lia.
  rewrite Nat.min_l by lia. rewrite Z2Nat.id by lia.
  rewrite Z.sub_diag. reflexivity.
Qed.

Lemma dev_read_faulted st buffer len :
  0 <= size_of_message st < 2 ^ 15 ->
  (length buffer < Z.to_nat (size_of_message st))%nat ->
  dev_read st buffer len =
  (st, take (length buffer) (message st), - C.EFAULT).
Proof.
  intros Hsz Hfit. unfold dev_read, copy_to_user.
  rewrite to_ulong_small by lia.
  rewrite Nat.min_r by lia.
  rewrite to_int_small by lia.
  destruct (size_of_message st - Z.of_nat (length buffer) =? 0) eqn:E.
  - apply Z.eqb_eq in E. lia.
  - rewrite drop_all, app_nil_r. reflexivity.
Qed.

(** ** The invariant of the message store *)

Lemma dev_read_state st buffer len :
  fst (fst (dev_read st buffer len)) = drained st \/
  fst (fst (dev_read st buffer len)) = st.
Proof.
  unfold dev_read.
  destruct (copy_to_user buffer (message st) (C.to_ulong (size_of_message st)))
    as [buffer' uncopied].
  destruct (C.to_int uncopied =? 0); [left|right]; reflexivity.
Qed.

Lemma dev_open_store current st :
  message (fst (dev_open current st)) = message st /\
  size_of_message (fst (dev_open current st)) = size_of_message st.
Proof.
  unfold dev_open, mutex_trylock.
  destruct (tdlchar_mutex st); simpl; split; reflexivity.
Qed.

Lemma no_lowercase_written st buffer : no_lowercase (written st buffer).
Proof.
  unfold no_lowercase. rewrite written_stored.
  generalize (cstring_length buffer). induction buffer as [|c buffer IH];
    intros [|k]; simpl; try reflexivity.
  rewrite toupper_not_lower. simpl. apply IH.
Qed.

Lemma wf_written st buffer :
  length (message st) = MESSAGE_SIZE ->
  (length buffer < MESSAGE_SIZE)%nat ->
  wf_state (written st buffer).
Proof.
  intros Hmsg Hlen. split; [by apply written_message_length|].
  simpl. pose proof (cstring_length_le buffer). unfold MESSAGE_SIZE in Hlen. lia.
Qed.

Lemma step_invariant st o st' :
  wf_state st /\ no_lowercase st ->
  step st o = Done st' ->
  wf_state st' /\ no_lowercase st'.
Proof.
  intros [[Hmsg Hsz] Hlow] Hstep. destruct o as [current|buffer len|buffer|]; simpl in Hstep.
  - injection Hstep as <-.
    destruct (dev_open_store current st) as [Hm Hs].
    unfold wf_state, no_lowercase, stored. rewrite Hm, Hs. done.
  - injection Hstep as <-.
    destruct (dev_read_state st buffer len) as [-> | ->]; [|done].
    split; [split; simpl; [done|lia]|reflexivity].
  - destruct (decide (length buffer < MESSAGE_SIZE)%nat) as [Hlen|Hlen].
    + rewrite dev_write_inside in Hstep by done. injection Hstep as <-.
      split; [by apply wf_written|apply no_lowercase_written].
    + rewrite dev_write_outside in Hstep by (done || lia). discriminate.
  - injection Hstep as <-. done.
Qed.

Lemma run_invariant ops : forall st st',
  wf_state st /\ no_lowercase st ->
  run ops st = Done st' ->
  wf_state st' /\ no_lowercase st'.
Proof.
  induction ops as [|o ops IH]; intros st st' Hinv Hrun; simpl in Hrun.
  - injection Hrun as <-. exact Hinv.
  - destruct (step st o) as [st1|] eqn:Hstep; [|discriminate].
    simpl in Hrun. eapply IH; [|exact Hrun].
    eapply step_invariant; eassumption.
Qed.

Lemma init_state_invariant : wf_state init_state /\ no_lowercase init_state.
Proof. split; [split; simpl; [reflexivity|lia]|reflexivity]. Qed.

(** ** Session gate *)

(** C1: in every state in which the mutex is held, [dev_open] returns
    [-EBUSY] and the state it leaves is the state it found: [message],
    [size_of_message], [numberOpens] and the owner of the mutex are as
    before. *)
Theorem dev_open_busy (st : tdlchar) (owner current : nat) :
  tdlchar_mutex st = Some owner ->
  snd (dev_open current st) = - C.EBUSY /\
  fst (dev_open current st) = st /\
  message (fst (dev_open current st)) = message st /\
  size_of_message (fst (dev_open current st)) = size_of_message st /\
  numberOpens (fst (dev_open current st)) = numberOpens st /\
  tdlchar_mutex (fst (dev_open current st)) = Some owner.
Proof.
  intros Hheld. unfold dev_open, mutex_trylock. rewrite Hheld. simpl.
  repeat split; done.
Qed.

(** A session opened by task 1 on the fresh device. *)
Definition opened : tdlchar := fst (dev_open 1 init_state).

Lemma dev_open_busy_witness :
  tdlchar_mutex opened = Some 1%nat /\
  snd (dev_open 2 opened) = - C.EBUSY /\
  fst (dev_open 2 opened) = opened.
Proof.
  split; [reflexivity|].
  destruct (dev_open_busy opened 1 2 eq_refl) as (Hret & Hst & _).
  split; [exact Hret|exact Hst].
Defined.

(** C9: [dev_release] followed by [dev_open] from another task succeeds and
    gives that task the mutex; neither call touches [message] or
    [size_of_message], so a message written and not read is still stored
    after the close/open boundary. *)
Theorem release_then_open (st : tdlchar) (current : nat) :
  snd (dev_release st) = 0 /\
  snd (dev_open current (fst (dev_release st))) = 0 /\
  tdlchar_mutex (fst (dev_open current (fst (dev_release st)))) = Some current /\
  message (fst (dev_release st)) = message st /\
  size_of_message (fst (dev_release st)) = size_of_message st /\
  message (fst (dev_open current st)) = message st /\
  size_of_message (fst (dev_open current st)) = size_of_message st /\
  stored (fst (dev_open current (fst (dev_release st)))) = stored st.
Proof.
  destruct (dev_open_store current st) as [Hm Hs].
  repeat split; try reflexivity; assumption.
Qed.

(** ** Transform engine *)

(** C2: [toupper] maps each of 'a' .. 'z' (97 .. 122) to the byte 32 below
    it and returns every other value as it is; a write that fits stores
    [toupper] of each payload byte, byte by byte and in order, at the front
    of [message]. *)
Theorem toupper_per_byte (b : Z) (st : tdlchar) (buffer : list Z) :
  length (message st) = MESSAGE_SIZE ->
  (length buffer < MESSAGE_SIZE)%nat ->
  (97 <= b <= 122 -> toupper b = b - 32) /\
  (~ 97 <= b <= 122 -> toupper b = b) /\
  exists st',
    dev_write st buffer = Done (st', Z.of_nat (length buffer)) /\
    take (length buffer) (message st') = map toupper buffer.
Proof.
  intros Hmsg Hlen. split; [apply toupper_lower|]. split; [apply toupper_other|].
  exists (written st buffer). split; [by apply dev_write_inside|apply written_prefix].
Qed.

Lemma toupper_per_byte_witness :
  toupper 97 = 65 /\ toupper 64 = 64 /\
  exists st',
    dev_write opened abc = Done (st', 3) /\ take 3 (message st') = ABC.
Proof.
  assert (Hmsg : length (message opened) = MESSAGE_SIZE) by reflexivity.
  assert (Hlen : (length abc < MESSAGE_SIZE)%nat) by (vm_compute; lia).
  destruct (toupper_per_byte 97 opened abc Hmsg Hlen) as (Hlow & _ & Hwr).
  destruct (toupper_per_byte 64 opened abc Hmsg Hlen) as (_ & Hoth & _).
  split; [apply Hlow; lia|]. split; [apply Hoth; lia|]. exact Hwr.
Defined.

(** ** Write protocol *)

(** C7, as the spec has it, fails on a payload with a zero byte: for the
    three bytes 'a', 0, 'b' the write returns 3 and stores 'A', 0, 'B', but
    [size_of_message] becomes 1, not 3. *)
Lemma write_length_counterexample :
  exists st',
    dev_write init_state [97; 0; 98] = Done (st', 3) /\
    take 3 (message st') = [65; 0; 66] /\
    size_of_message st' = 1 /\
    size_of_message st' <> Z.of_nat (length [97; 0; 98]).
Proof.
  eexists. split; [reflexivity|]. simpl.
  split; [reflexivity|]. split; [reflexivity|].
  intros H. refute_by_running H.
Qed.

(** C7, amended: for every payload shorter than the array, [dev_write]
    stores [toupper] of each payload byte in [message[0 .. len)], puts the
    terminator at [message[len]], sets [size_of_message] to the length of
    the payload up to its first zero byte (the whole length when the payload
    has none) and returns [len]. *)
Theorem dev_write_stores (st : tdlchar) (buffer : list Z) :
  length (message st) = MESSAGE_SIZE ->
  (length buffer < MESSAGE_SIZE)%nat ->
  exists st',
    dev_write st buffer = Done (st', Z.of_nat (length buffer)) /\
    take (length buffer) (message st') = map toupper buffer /\
    message st' !! length buffer = Some 0 /\
    size_of_message st' = Z.of_nat (cstring_length buffer) /\
    (no_zero_byte buffer -> size_of_message st' = Z.of_nat (length buffer)).
Proof.
  intros Hmsg Hlen. exists (written st buffer).
  split; [by apply dev_write_inside|]. split; [apply written_prefix|].
  split; [|split; [reflexivity|]].
  - simpl. rewrite lookup_app_r by (rewrite length_map; lia).
    rewrite length_map, Nat.sub_diag. reflexivity.
  - intros Hnz. simpl. rewrite cstring_length_no_zero by done. reflexivity.
Qed.

Lemma dev_write_stores_witness :
  exists st',
    dev_write opened abc = Done (st', 3) /\
    take 3 (message st') = ABC /\
    message st' !! 3%nat = Some 0 /\
    size_of_message st' = 3.
Proof.
  destruct (dev_write_stores opened abc) as (st' & Hw & Hpre & Hterm & Hsz & _);
    [reflexivity|vm_compute; lia|].
  exists st'. repeat split; assumption.
Defined.

(** [dev_write] has no error return: when it returns, it returns [len]. *)
Lemma dev_write_returns_len st buffer st' r :
  dev_write st buffer = Done (st', r) -> r = Z.of_nat (length buffer).
Proof.
  unfold dev_write. intros Hw.
  destruct (write_loop buffer 0 (message st)) as [m1|]; [|discriminate].
  simpl in Hw. destruct (store m1 (length buffer) 0) as [m2|]; [|discriminate].
  simpl in Hw. destruct (strlen m2) as [n|]; [|discriminate].
  simpl in Hw. congruence.
Qed.

(** C3, as the spec has it, fails twice.  A payload of 256 bytes gets no
    error: the loop overwrites all of [message] and the terminator store
    [message[256]] is outside the array.  A payload of 255 bytes with a zero
    byte in second place is stored, but the read that follows copies one
    byte, not the 255 transformed bytes. *)
Lemma capacity_boundary_counterexample :
  (~ exists err, dev_write init_state (replicate 256 97) = Done (init_state, err)) /\
  write_loop (replicate 256 97) 0 (message init_state) = Done (replicate 256 65) /\
  dev_write init_state (replicate 256 97) = Undefined /\
  exists st',
    dev_write init_state (97 :: 0 :: replicate 253 98) = Done (st', 255) /\
    snd (fst (dev_read st' (replicate 256 0) 256)) = 65 :: replicate 255 0 /\
    take 255 (snd (fst (dev_read st' (replicate 256 0) 256)))
    <> map toupper (97 :: 0 :: replicate 253 98).
Proof.
  assert (Hover : dev_write init_state (replicate 256 97) = Undefined)
    by by_running.
  split; [intros [err Herr]; rewrite Hover in Herr; discriminate|].
  split; [by_running|]. split; [exact Hover|].
  eexists. split; [by_running|].
  split; [by_running|].
  intros H. refute_by_running H.
Qed.

(** C3, amended: [dev_write] has no error return (whenever it returns, the
    value is the payload length); for every payload of 255 bytes without a
    zero byte the write succeeds, the stored message is the transformed
    payload, and a read into a destination with 255 writable bytes copies
    exactly that. *)
Theorem dev_write_capacity_boundary (st : tdlchar) (buffer dst : list Z) (len : Z) :
  length (message st) = MESSAGE_SIZE ->
  length buffer = 255%nat ->
  no_zero_byte buffer ->
  (255 <= length dst)%nat ->
  (forall payload st' r,
     dev_write st payload = Done (st', r) -> r = Z.of_nat (length payload)) /\
  exists st',
    dev_write st buffer = Done (st', 255) /\
    stored st' = map toupper buffer /\
    dev_read st' dst len = (drained st', map toupper buffer ++ drop 255 dst, 0).
Proof.
  intros Hmsg Hlen Hnz Hdst.
  split; [intros payload st' r; apply dev_write_returns_len|].
  exists (written st buffer).
  assert (Hsz : size_of_message (written st buffer) = 255)
    by (simpl; rewrite cstring_length_no_zero by done; lia).
  split; [|split].
  - rewrite dev_write_inside by (done || (unfold MESSAGE_SIZE; lia)).
    rewrite Hlen. reflexivity.
  - by apply written_stored_no_zero.
  - rewrite dev_read_copied by (rewrite Hsz; simpl; lia).
    rewrite written_stored_no_zero by done. rewrite Hsz. reflexivity.
Qed.

Lemma dev_write_capacity_boundary_witness :
  exists st',
    dev_write opened (replicate 255 97) = Done (st', 255) /\
    stored st' = replicate 255 65 /\
    dev_read st' (replicate 256 0) 256 = (drained st', replicate 255 65 ++ [0], 0).
Proof.
  destruct (dev_write_capacity_boundary opened (replicate 255 97) (replicate 256 0) 256)
    as (_ & st' & Hw & Hst & Hrd).
  - reflexivity.
  - reflexivity.
  - apply Forall_replicate. lia.
  - vm_compute. lia.
  - exists st'. split; [exact Hw|]. split; [exact Hst|exact Hrd].
Defined.

(** C8, as the spec has it, fails on the return value and on zero bytes:
    after "ab" and then "xyz" a read copies "XYZ" but returns 0, not 3; and
    when the second payload is 'x', 0, 'y' the read copies the one byte 'X',
    not the three transformed bytes. *)
Lemma overwrite_counterexample :
  (exists st1 st2,
     dev_write opened [97; 98] = Done (st1, 2) /\
     dev_write st1 [120; 121; 122] = Done (st2, 3) /\
     snd (fst (dev_read st2 (replicate 256 0) 256)) = [88; 89; 90] ++ replicate 253 0 /\
     snd (dev_read st2 (replicate 256 0) 256) = 0 /\
     snd (dev_read st2 (replicate 256 0) 256) <> 3) /\
  (exists st1 st2,
     dev_write opened [97; 98] = Done (st1, 2) /\
     dev_write st1 [120; 0; 121] = Done (st2, 3) /\
     snd (fst (dev_read st2 (replicate 256 0) 256)) = 88 :: replicate 255 0 /\
     take 3 (snd (fst (dev_read st2 (replicate 256 0) 256))) <> map toupper [120; 0; 121]).
Proof.
  split.
  - do 2 eexists. split; [by_running|].
    split; [by_running|]. split; [by_running|].
    split; [by_running|]. intros H. refute_by_running H.
  - do 2 eexists. split; [by_running|].
    split; [by_running|]. split; [by_running|].
    intros H. refute_by_running H.
Qed.

(** C8, amended: for two consecutive writes that fit, the second without a
    zero byte, the stored message after the second write is exactly the
    transformed second payload, whatever the first payload was and however
    long; a read then copies these [length p2] bytes to the caller and
    returns 0. *)
Theorem last_write_wins (st : tdlchar) (p1 p2 dst : list Z) (len : Z) :
  length (message st) = MESSAGE_SIZE ->
  (length p1 < MESSAGE_SIZE)%nat ->
  (length p2 < MESSAGE_SIZE)%nat ->
  no_zero_byte p2 ->
  (length p2 <= length dst)%nat ->
  exists st1 st2,
    dev_write st p1 = Done (st1, Z.of_nat (length p1)) /\
    dev_write st1 p2 = Done (st2, Z.of_nat (length p2)) /\
    size_of_message st2 = Z.of_nat (length p2) /\
    stored st2 = map toupper p2 /\
    dev_read st2 dst len = (drained st2, map toupper p2 ++ drop (length p2) dst, 0).
Proof.
  intros Hmsg H1 H2 Hnz Hdst.
  exists (written st p1), (written (written st p1) p2).
  assert (Hsz : size_of_message (written (written st p1) p2) = Z.of_nat (length p2))
    by (simpl; rewrite cstring_length_no_zero by done; reflexivity).
  split; [by apply dev_write_inside|].
  split; [apply dev_write_inside; [by apply written_message_length|done]|].
  split; [exact Hsz|]. split; [by apply written_stored_no_zero|].
  unfold MESSAGE_SIZE in H2.
  rewrite dev_read_copied by (rewrite Hsz; simpl; lia).
  rewrite written_stored_no_zero by done. rewrite Hsz, Nat2Z.id. reflexivity.
Qed.

Lemma last_write_wins_witness :
  exists st1 st2,
    dev_write opened [120; 121; 122] = Done (st1, 3) /\
    dev_write st1 [97; 98] = Done (st2, 2) /\
    size_of_message st2 = 2 /\
    stored st2 = [65; 66] /\
    dev_read st2 (replicate 256 0) 256 = (drained st2, [65; 66] ++ replicate 254 0, 0).
Proof.
  destruct (last_write_wins opened [120; 121; 122] [97; 98] (replicate 256 0) 256)
    as (st1 & st2 & Hw1 & Hw2 & Hsz & Hst & Hrd).
  - reflexivity.
  - vm_compute. lia.
  - vm_compute. lia.
  - repeat constructor; lia.
  - vm_compute. lia.
  - exists st1, st2. repeat split; assumption.
Defined.

(** ** Read protocol *)

(** C4, as the spec has it, fails on the return value: after "abc" is
    written in an open session, the read copies "ABC" to the caller but
    returns 0, not the count 3. *)
Lemma read_count_counterexample :
  exists st1,
    dev_write opened abc = Done (st1, 3) /\
    snd (fst (dev_read st1 (replicate 256 0) 256)) = ABC ++ replicate 253 0 /\
    snd (dev_read st1 (replicate 256 0) 256) = 0 /\
    snd (dev_read st1 (replicate 256 0) 256) <> 3.
Proof.
  eexists. split; [by_running|].
  split; [by_running|]. split; [by_running|].
  intros H. refute_by_running H.
Qed.

(** C4, amended: after "abc" is written, a read into a destination with at
    least three writable bytes copies "ABC" there, resets [size_of_message]
    to 0 and returns 0; a second read right after it copies nothing, leaves
    the caller's memory as it is and returns 0. *)
Theorem read_is_destructive (st : tdlchar) (dst dst2 : list Z) (len len2 : Z) :
  length (message st) = MESSAGE_SIZE ->
  (3 <= length dst)%nat ->
  exists st1 st2,
    dev_write st abc = Done (st1, 3) /\
    dev_read st1 dst len = (st2, ABC ++ drop 3 dst, 0) /\
    size_of_message st2 = 0 /\
    dev_read st2 dst2 len2 = (st2, dst2, 0).
Proof.
  intros Hmsg Hdst.
  exists (written st abc), (drained (written st abc)).
  split; [apply dev_write_inside; [done|vm_compute; lia]|].
  split; [|split; [reflexivity|]].
  - rewrite dev_read_copied by (simpl; lia).
    rewrite written_stored_no_zero by (repeat constructor; lia). reflexivity.
  - rewrite dev_read_copied by (simpl; lia). reflexivity.
Qed.

Lemma read_is_destructive_witness :
  exists st1 st2,
    dev_write opened abc = Done (st1, 3) /\
    dev_read st1 (replicate 256 0) 256 = (st2, ABC ++ replicate 253 0, 0) /\
    size_of_message st2 = 0 /\
    dev_read st2 (replicate 256 0) 256 = (st2, replicate 256 0, 0).
Proof.
  destruct (read_is_destructive opened (replicate 256 0) (replicate 256 0) 256 256)
    as (st1 & st2 & Hw & Hr1 & Hsz & Hr2).
  - reflexivity.
  - vm_compute. lia.
  - exists st1, st2. split; [exact Hw|]. split; [exact Hr1|].
    split; [exact Hsz|exact Hr2].
Defined.

(** C5: in every state (with [size_of_message] a non-negative [short]), when
    [copy_to_user] reports bytes it could not copy, [dev_read] returns
    [-EFAULT] and leaves the device state as it was: [size_of_message]
    keeps its value and the stored message is still there for a retry. *)
Theorem dev_read_copy_fault (st : tdlchar) (buffer : list Z) (len : Z) :
  0 <= size_of_message st < 2 ^ 15 ->
  snd (copy_to_user buffer (message st) (C.to_ulong (size_of_message st))) <> 0 ->
  snd (dev_read st buffer len) = - C.EFAULT /\
  fst (fst (dev_read st buffer len)) = st /\
  size_of_message (fst (fst (dev_read st buffer len))) = size_of_message st /\
  stored (fst (fst (dev_read st buffer len))) = stored st.
Proof.
  intros Hsz Hfail.
  assert (Hshort : (length buffer < Z.to_nat (size_of_message st))%nat).
  { unfold copy_to_user in Hfail. simpl in Hfail.
    rewrite to_ulong_small in Hfail by lia. lia. }
  rewrite dev_read_faulted by done. simpl. done.
Qed.

Lemma dev_read_copy_fault_witness :
  snd (dev_read (written opened abc) [7; 7] 256) = - C.EFAULT /\
  fst (fst (dev_read (written opened abc) [7; 7] 256)) = written opened abc.
Proof.
  destruct (dev_read_copy_fault (written opened abc) [7; 7] 256) as (Hret & Hst & _).
  - simpl. lia.
  - vm_compute. discriminate.
  - split; [exact Hret|exact Hst].
Defined.

(** C6, as the spec has it, fails: with "ABC" stored and a destination of
    capacity 1 inside four writable bytes of the caller, the read copies
    three bytes and overwrites the two bytes behind the destination. *)
Lemma read_capacity_counterexample :
  snd (fst (dev_read (written opened abc) [1; 2; 3; 4] 1)) = [65; 66; 67; 4] /\
  snd (fst (dev_read (written opened abc) [1; 2; 3; 4] 1))
  <> take 1 (message (written opened abc)) ++ drop 1 [1; 2; 3; 4] /\
  drop 1 (snd (fst (dev_read (written opened abc) [1; 2; 3; 4] 1)))
  <> drop 1 [1; 2; 3; 4].
Proof.
  split; [by_running|].
  split; intros H; refute_by_running H.
Qed.

(** C6, amended: the capacity passed to [dev_read] is not consulted: the
    result is the same for every capacity [c].  The read copies
    min([size_of_message], w) bytes, w being the number of writable bytes
    at the caller's destination; when w is at least [size_of_message] it
    copies all [size_of_message] bytes and returns 0, whatever [c] is. *)
Theorem dev_read_ignores_capacity (st : tdlchar) (buffer : list Z) (c c' : Z) :
  0 <= size_of_message st < 2 ^ 15 ->
  dev_read st buffer c' = dev_read st buffer c /\
  bytes_copied st buffer =
    Z.of_nat (Nat.min (Z.to_nat (size_of_message st)) (length buffer)) /\
  snd (fst (dev_read st buffer c)) =
    take (Nat.min (Z.to_nat (size_of_message st)) (length buffer)) (message st)
    ++ drop (Nat.min (Z.to_nat (size_of_message st)) (length buffer)) buffer /\
  ((Z.to_nat (size_of_message st) <= length buffer)%nat ->
   bytes_copied st buffer = size_of_message st /\
   dev_read st buffer c =
   (drained st, stored st ++ drop (Z.to_nat (size_of_message st)) buffer, 0)).
Proof.
  intros Hsz. split; [reflexivity|].
  assert (Hcount : bytes_copied st buffer =
            Z.of_nat (Nat.min (Z.to_nat (size_of_message st)) (length buffer))).
  { unfold bytes_copied, copy_to_user. simpl.
    rewrite to_ulong_small by lia. lia. }
  split; [exact Hcount|]. split.
  - destruct (decide (Z.to_nat (size_of_message st) <= length buffer)%nat) as [Hfit|Hfit].
    + rewrite dev_read_copied by done. rewrite Nat.min_l by done. reflexivity.
    + rewrite dev_read_faulted by (done || lia). rewrite Nat.min_r by lia.
      simpl. rewrite drop_all, app_nil_r. reflexivity.
  - intros Hfit. split; [|by apply dev_read_copied].
    rewrite Hcount, Nat.min_l by done. lia.
Qed.

Lemma dev_read_ignores_capacity_witness :
  dev_read (written opened abc) [1; 2; 3; 4] 256
  = dev_read (written opened abc) [1; 2; 3; 4] 1 /\
  bytes_copied (written opened abc) [1; 2; 3; 4] = 3 /\
  snd (fst (dev_read (written opened abc) [1; 2; 3; 4] 1)) = [65; 66; 67; 4] /\
  bytes_copied (written opened abc) [7; 7] = 2.
Proof.
  destruct (dev_read_ignores_capacity (written opened abc) [1; 2; 3; 4] 1 256)
    as (Hsame & Hcount & Hcopy & _); [simpl; lia|].
  destruct (dev_read_ignores_capacity (written opened abc) [7; 7] 2 2)
    as (_ & Hcut & _); [simpl; lia|].
  split; [exact Hsame|]. split; [exact Hcount|]. split; [exact Hcopy|exact Hcut].
Defined.

(** ** No lowercase letter in the stored message *)

(** C10: after every sequence of file operations on the fresh device that
    stays inside the array, no byte of [message[0 .. size_of_message)] is
    one of 'a' .. 'z'. *)
Theorem stored_never_lowercase (ops : list op) (st : tdlchar) :
  run ops init_state = Done st ->
  no_lowercase st /\
  forall (i : nat) (c : Z),
    (i < Z.to_nat (size_of_message st))%nat ->
    message st !! i = Some c -> ~ 97 <= c <= 122.
Proof.
  intros Hrun.
  destruct (run_invariant ops init_state st init_state_invariant Hrun) as [_ Hlow].
  split; [exact Hlow|].
  intros i c Hi Hc [Ha Hz].
  unfold no_lowercase in Hlow. rewrite forallb_forall in Hlow.
  assert (Hin : In c (stored st)).
  { apply list_elem_of_In, list_elem_of_lookup. exists i.
    unfold stored. rewrite lookup_take_lt by done. exact Hc. }
  specialize (Hlow c Hin). unfold is_lower in Hlow.
  apply Z.leb_le in Ha, Hz. rewrite Ha, Hz in Hlow. discriminate.
Qed.

Definition session_ops : list op :=
  [Open 1; Write abc; Release; Open 2; Write [104; 105; 33];
   Read (replicate 256 0) 256; Write [122]].

Definition session_end : tdlchar :=
  {| message := [90; 0; 33] ++ replicate 253 0;
     size_of_message := 1;
     numberOpens := 2;
     tdlchar_mutex := Some 2%nat |}.

Lemma stored_never_lowercase_witness :
  run session_ops init_state = Done session_end /\
  stored session_end = [90] /\
  no_lowercase session_end.
Proof.
  assert (Hrun : run session_ops init_state = Done session_end)
    by by_running.
  split; [exact Hrun|]. split; [reflexivity|].
  exact (proj1 (stored_never_lowercase session_ops session_end Hrun)).
Defined.

(** * Further properties of the driver *)

(** ** More on the transform *)

(** X1: [toupper] is idempotent: transforming a byte twice gives what one
    transform gives. *)
Theorem toupper_idempotent (c : Z) : toupper (toupper c) = toupper c.
Proof.
  apply toupper_other. intros [Ha Hz].
  pose proof (toupper_not_lower c) as Hn. unfold is_lower in Hn.
  apply Z.leb_le in Ha, Hz. rewrite Ha, Hz in Hn. discriminate.
Qed.

(** X2: the transform keeps a payload's shape as a C string: a byte is zero
    after [toupper] exactly when it was zero before, a byte stays a byte,
    and the length up to the first zero byte is the same for the payload
    and for its transform. *)
Theorem transform_keeps_string_shape (c : Z) (s : list Z) :
  0 <= c < 256 ->
  (toupper c = 0 <-> c = 0) /\
  0 <= toupper c < 256 /\
  length (map toupper s) = length s /\
  cstring_length (map toupper s) = cstring_length s.
Proof.
  intros Hc. split; [|split; [by apply toupper_byte|split]].
  - rewrite <- !Z.eqb_eq, toupper_zero. reflexivity.
  - apply length_map.
  - apply cstring_length_toupper.
Qed.

Lemma transform_keeps_string_shape_witness :
  (toupper 122 = 0 <-> 122 = 0) /\
  0 <= toupper 122 < 256 /\
  length (map toupper [104; 105; 0; 120]) = 4%nat /\
  cstring_length (map toupper [104; 105; 0; 120]) = 2%nat.
Proof.
  apply (transform_keeps_string_shape 122 [104; 105; 0; 120]). lia.
Defined.

(** ** More on the session gate *)

(** X3: on a free mutex [dev_open] succeeds: it returns 0, makes the caller
    the owner, counts the open in [numberOpens] and leaves the message
    store alone. *)
Theorem dev_open_free (st : tdlchar) (current : nat) :
  tdlchar_mutex st = None ->
  - 2 ^ 31 <= numberOpens st < 2 ^ 31 - 1 ->
  dev_open current st =
  ({| message := message st;
      size_of_message := size_of_message st;
      numberOpens := numberOpens st + 1;
      tdlchar_mutex := Some current |}, 0).
Proof.
  intros Hfree Hcount. unfold dev_open, mutex_trylock. rewrite Hfree.
  rewrite to_int_small by lia. reflexivity.
Qed.

Lemma dev_open_free_witness :
  dev_open 7 init_state =
  ({| message := replicate MESSAGE_SIZE 0; size_of_message := 0;
      numberOpens := 1; tdlchar_mutex := Some 7%nat |}, 0).
Proof.
  apply (dev_open_free init_state 7); [reflexivity|simpl; lia].
Defined.

(** [dev_write] assigns neither the counter nor the mutex. *)
Lemma dev_write_gate st buffer st' r :
  dev_write st buffer = Done (st', r) ->
  numberOpens st' = numberOpens st /\ tdlchar_mutex st' = tdlchar_mutex st.
Proof.
  unfold dev_write. intros Hw.
  destruct (write_loop buffer 0 (message st)) as [m1|]; [|discriminate].
  simpl in Hw. destruct (store m1 (length buffer) 0) as [m2|]; [|discriminate].
  simpl in Hw. destruct (strlen m2) as [n|]; [|discriminate].
  simpl in Hw. injection Hw as <- _. done.
Qed.

Lemma step_keeps_gate st o st' owner :
  tdlchar_mutex st = Some owner ->
  o <> Release ->
  step st o = Done st' ->
  tdlchar_mutex st' = Some owner /\ numberOpens st' = numberOpens st.
Proof.
  intros Hheld Hrel Hstep. destruct o as [current|buffer len|buffer|]; simpl in Hstep.
  - injection Hstep as <-.
    unfold dev_open, mutex_trylock. rewrite Hheld. simpl. done.
  - injection Hstep as <-.
    destruct (dev_read_state st buffer len) as [-> | ->]; done.
  - destruct (dev_write st buffer) as [[st1 r]|] eqn:Hw; [|discriminate].
    simpl in Hstep. injection Hstep as <-.
    destruct (dev_write_gate _ _ _ _ Hw) as [-> ->]. done.
  - done.
Qed.

(** X4: while a session is open nobody else gets in: from a state whose
    mutex is held, any sequence of opens, reads and writes (no release)
    that runs to its end leaves the same owner on the mutex and the same
    count of opens. *)
Theorem session_stays_exclusive (ops : list op) (st st' : tdlchar) (owner : nat) :
  tdlchar_mutex st = Some owner ->
  Forall (fun o => o <> Release) ops ->
  run ops st = Done st' ->
  tdlchar_mutex st' = Some owner /\ numberOpens st' = numberOpens st.
Proof.
  intros Hheld Hops. revert st Hheld.
  induction Hops as [|o ops Ho _ IH]; intros st Hheld Hrun; simpl in Hrun.
  - injection Hrun as <-. done.
  - destruct (step st o) as [st1|] eqn:Hstep; [|discriminate]. simpl in Hrun.
    destruct (step_keeps_gate st o st1 owner Hheld Ho Hstep) as [Hm Hn].
    destruct (IH st1 Hm Hrun) as [Hm' Hn']. split; [exact Hm'|congruence].
Qed.

Lemma session_stays_exclusive_witness :
  exists st',
    run [Open 2; Write abc; Open 3; Read [] 0; Open 2] opened = Done st' /\
    tdlchar_mutex st' = Some 1%nat /\ numberOpens st' = 1.
Proof.
  eexists. split; [by_running|].
  apply (session_stays_exclusive [Open 2; Write abc; Open 3; Read [] 0; Open 2] opened).
  - reflexivity.
  - repeat constructor; discriminate.
  - by_running.
Defined.

(** Every step moves the counter by at most one, and only an open moves it. *)
Lemma step_counts_opens st o st' :
  - 2 ^ 31 <= numberOpens st ->
  numberOpens st + (match o with Open _ => 1 | _ => 0 end) < 2 ^ 31 ->
  step st o = Done st' ->
  numberOpens st <= numberOpens st' <=
  numberOpens st + (match o with Open _ => 1 | _ => 0 end).
Proof.
  intros Hcount Hmax Hstep. destruct o as [current|buffer len|buffer|]; simpl in Hstep.
  - injection Hstep as <-. unfold dev_open, mutex_trylock.
    destruct (tdlchar_mutex st); simpl; [lia|].
    rewrite to_int_small by lia. lia.
  - injection Hstep as <-.
    destruct (dev_read_state st buffer len) as [-> | ->]; simpl; lia.
  - destruct (dev_write st buffer) as [[st1 r]|] eqn:Hw; [|discriminate].
    simpl in Hstep. injection Hstep as <-.
    destruct (dev_write_gate _ _ _ _ Hw) as [-> _]. lia.
  - injection Hstep as <-. simpl. lia.
Qed.

Lemma open_calls_nonneg ops : 0 <= open_calls ops.
Proof. induction ops as [|[| | |] ops IH]; simpl; lia. Qed.

(** X14: [numberOpens] never goes down and grows by at most one per open
    call, as long as the count stays below INT_MAX. *)
Theorem numberOpens_bounded (ops : list op) (st st' : tdlchar) :
  0 <= numberOpens st ->
  numberOpens st + open_calls ops < 2 ^ 31 ->
  run ops st = Done st' ->
  numberOpens st <= numberOpens st' <= numberOpens st + open_calls ops.
Proof.
  revert st. induction ops as [|o ops IH]; intros st Hpos Hmax Hrun; simpl in Hrun.
  - injection Hrun as <-. simpl. lia.
  - destruct (step st o) as [st1|] eqn:Hstep; [|discriminate]. simpl in Hrun.
    pose proof (open_calls_nonneg ops) as Hn.
    assert (Hone : numberOpens st <= numberOpens st1 <=
                   numberOpens st + (match o with Open _ => 1 | _ => 0 end)).
    { apply step_counts_opens; [lia| |exact Hstep]. destruct o; simpl in Hmax; lia. }
    assert (Hrest : numberOpens st1 <= numberOpens st' <= numberOpens st1 + open_calls ops).
    { apply IH; [lia| |exact Hrun]. destruct o; simpl in Hmax; lia. }
    destruct o; simpl in *; lia.
Qed.

Lemma numberOpens_bounded_witness :
  exists st',
    run [Open 1; Open 2; Release; Open 2] init_state = Done st' /\
    0 <= numberOpens st' <= 3.
Proof.
  eexists. split; [by_running|].
  apply (numberOpens_bounded [Open 1; Open 2; Release; Open 2] init_state).
  - simpl. lia.
  - simpl. lia.
  - by_running.
Defined.

(** ** More on the write protocol *)

(** X5: [dev_write] never checks [len] against the array: it stays inside
    [message] exactly for payloads of at most 255 bytes, and a payload of
    256 bytes or more makes it store outside the array. *)
Theorem dev_write_bounds (st : tdlchar) (buffer : list Z) :
  length (message st) = MESSAGE_SIZE ->
  ((length buffer < MESSAGE_SIZE)%nat <->
   exists st', dev_write st buffer = Done (st', Z.of_nat (length buffer))) /\
  ((MESSAGE_SIZE <= length buffer)%nat <-> dev_write st buffer = Undefined).
Proof.
  intros Hmsg.
  destruct (decide (length buffer < MESSAGE_SIZE)%nat) as [Hlen|Hlen].
  - pose proof (dev_write_inside st buffer Hmsg Hlen) as Hw. split; split.
    + intros _. eexists. exact Hw.
    + intros _. exact Hlen.
    + lia.
    + rewrite Hw. discriminate.
  - pose proof (dev_write_outside st buffer Hmsg) as Hw.
    rewrite Hw by lia. split; split.
    + lia.
    + intros [st' Hst']. discriminate.
    + reflexivity.
    + lia.
Qed.

Lemma dev_write_bounds_witness :
  (exists st', dev_write init_state (replicate 255 97) = Done (st', 255)) /\
  dev_write init_state (replicate 256 97) = Undefined.
Proof.
  destruct (dev_write_bounds init_state (replicate 255 97) eq_refl) as [[Hin _] _].
  destruct (dev_write_bounds init_state (replicate 256 97) eq_refl) as [_ [Hout _]].
  split; [apply Hin; vm_compute; lia|apply Hout; vm_compute; lia].
Defined.

(** X6: a write that fits touches [message[0 .. len]] and nothing else:
    the bytes behind the terminator keep what earlier writes left there,
    the array keeps its size, and the counter and the mutex are as before. *)
Theorem dev_write_frame (st : tdlchar) (buffer : list Z) :
  length (message st) = MESSAGE_SIZE ->
  (length buffer < MESSAGE_SIZE)%nat ->
  exists st',
    dev_write st buffer = Done (st', Z.of_nat (length buffer)) /\
    drop (S (length buffer)) (message st') = drop (S (length buffer)) (message st) /\
    length (message st') = MESSAGE_SIZE /\
    numberOpens st' = numberOpens st /\
    tdlchar_mutex st' = tdlchar_mutex st.
Proof.
  intros Hmsg Hlen. exists (written st buffer).
  split; [by apply dev_write_inside|]. split; [|split; [by apply written_message_length|done]].
  simpl. replace (0 :: drop (S (length buffer)) (message st))
    with ([0] ++ drop (S (length buffer)) (message st)) by reflexivity.
  rewrite app_assoc. apply drop_app_length'.
  rewrite length_app, length_map. simpl. lia.
Qed.

Lemma dev_write_frame_witness :
  exists st1 st2,
    dev_write init_state [104; 101; 108; 108; 111] = Done (st1, 5) /\
    dev_write st1 [104; 105] = Done (st2, 2) /\
    drop 3 (message st2) = drop 3 (message st1) /\
    take 6 (message st2) = [72; 73; 0; 76; 79; 0].
Proof.
  destruct (dev_write_frame init_state [104; 101; 108; 108; 111])
    as (st1 & Hw1 & _ & Hlen1 & _); [reflexivity|vm_compute; lia|].
  destruct (dev_write_frame st1 [104; 105])
    as (st2 & Hw2 & Hrest & _); [exact Hlen1|vm_compute; lia|].
  exists st1, st2. split; [exact Hw1|]. split; [exact Hw2|]. split; [exact Hrest|].
  assert (Hst1 : st1 = written init_state [104; 101; 108; 108; 111]).
  { rewrite dev_write_inside in Hw1 by (reflexivity || (vm_compute; lia)). congruence. }
  assert (Hst2 : st2 = written st1 [104; 105]).
  { rewrite dev_write_inside in Hw2 by (exact Hlen1 || (vm_compute; lia)). congruence. }
  rewrite Hst2, Hst1. reflexivity.
Defined.

(** X7: write then read, for any payload that fits: the read copies the
    transformed payload up to its first zero byte (all of it when there is
    none), leaves the rest of the caller's memory alone, empties the store
    and returns 0. *)
Theorem write_then_read (st : tdlchar) (buffer dst : list Z) (len : Z) :
  length (message st) = MESSAGE_SIZE ->
  (length buffer < MESSAGE_SIZE)%nat ->
  (cstring_length buffer <= length dst)%nat ->
  exists st1 st2,
    dev_write st buffer = Done (st1, Z.of_nat (length buffer)) /\
    dev_read st1 dst len =
      (st2, take (cstring_length buffer) (map toupper buffer)
            ++ drop (cstring_length buffer) dst, 0) /\
    size_of_message st2 = 0.
Proof.
  intros Hmsg Hlen Hdst.
  exists (written st buffer), (drained (written st buffer)).
  split; [by apply dev_write_inside|]. split; [|reflexivity].
  pose proof (cstring_length_le buffer) as Hle. unfold MESSAGE_SIZE in Hlen.
  rewrite dev_read_copied by (simpl; lia).
  rewrite written_stored. simpl. rewrite Nat2Z.id. reflexivity.
Qed.

Lemma write_then_read_witness :
  exists st1 st2,
    dev_write opened [104; 105; 0; 120] = Done (st1, 4) /\
    dev_read st1 [1; 2; 3; 4; 5] 5 = (st2, [72; 73; 3; 4; 5], 0) /\
    size_of_message st2 = 0.
Proof.
  apply (write_then_read opened [104; 105; 0; 120] [1; 2; 3; 4; 5] 5).
  - reflexivity.
  - vm_compute. lia.
  - vm_compute. lia.
Defined.

(** ** More on the read protocol *)

(** X8: a read from an empty store cannot fail: with [size_of_message] at 0
    it copies nothing, leaves the caller's memory and the device as they
    are and returns 0, even when no byte of the destination is writable. *)
Theorem dev_read_empty (st : tdlchar) (buffer : list Z) (len : Z) :
  size_of_message st = 0 ->
  dev_read st buffer len = (st, buffer, 0).
Proof.
  intros Hsz. rewrite dev_read_copied by (rewrite Hsz; simpl; lia).
  unfold stored, drained. rewrite Hsz. simpl.
  destruct st as [m s n mu]. simpl in Hsz. subst s. reflexivity.
Qed.

Lemma dev_read_empty_witness :
  dev_read opened [] 256 = (opened, [], 0).
Proof. apply (dev_read_empty opened [] 256). reflexivity. Defined.

(** X9: a read never alters the array: whether the copy succeeds or
    faults, every byte of [message] is as before (a successful read resets
    the length only), and the counter and the mutex are untouched. *)
Theorem dev_read_keeps_array (st : tdlchar) (buffer : list Z) (len : Z) :
  message (fst (fst (dev_read st buffer len))) = message st /\
  numberOpens (fst (fst (dev_read st buffer len))) = numberOpens st /\
  tdlchar_mutex (fst (fst (dev_read st buffer len))) = tdlchar_mutex st /\
  (size_of_message (fst (fst (dev_read st buffer len))) = 0 \/
   size_of_message (fst (fst (dev_read st buffer len))) = size_of_message st).
Proof.
  destruct (dev_read_state st buffer len) as [-> | ->]; simpl; auto.
Qed.

(** X10: a faulting read is not all-or-nothing for the caller: when fewer
    bytes are writable at the destination than the message has, the
    writable bytes are all overwritten with the start of the message, the
    call returns [-EFAULT] and the device keeps the message. *)
Theorem dev_read_partial_copy (st : tdlchar) (buffer : list Z) (len : Z) :
  0 <= size_of_message st < 2 ^ 15 ->
  (length buffer < Z.to_nat (size_of_message st))%nat ->
  dev_read st buffer len = (st, take (length buffer) (message st), - C.EFAULT).
Proof. apply dev_read_faulted. Qed.

Lemma dev_read_partial_copy_witness :
  dev_read (written opened abc) [7; 7] 256 = (written opened abc, [65; 66], - C.EFAULT).
Proof.
  apply (dev_read_partial_copy (written opened abc) [7; 7] 256).
  - simpl. lia.
  - vm_compute. lia.
Defined.

(** X11: a read can be retried after a fault: the failed read leaves the
    message in place, and a following read into a destination with room
    for it copies the whole stored message and empties the store. *)
Theorem dev_read_retry (st : tdlchar) (small dst : list Z) (len len' : Z) :
  0 <= size_of_message st < 2 ^ 15 ->
  (length small < Z.to_nat (size_of_message st))%nat ->
  (Z.to_nat (size_of_message st) <= length dst)%nat ->
  snd (dev_read st small len) = - C.EFAULT /\
  dev_read (fst (fst (dev_read st small len))) dst len' =
  (drained st, stored st ++ drop (Z.to_nat (size_of_message st)) dst, 0).
Proof.
  intros Hsz Hsmall Hdst. rewrite dev_read_faulted by done. simpl.
  split; [reflexivity|]. by apply dev_read_copied.
Qed.

Lemma dev_read_retry_witness :
  snd (dev_read (written opened abc) [7; 7] 2) = - C.EFAULT /\
  dev_read (fst (fst (dev_read (written opened abc) [7; 7] 2))) [1; 2; 3; 4] 4 =
  (drained (written opened abc), [65; 66; 67; 4], 0).
Proof.
  apply (dev_read_retry (written opened abc) [7; 7] [1; 2; 3; 4] 2 4).
  - simpl. lia.
  - vm_compute. lia.
  - vm_compute. lia.
Defined.

(** ** More invariants of the message store *)

(** Induction over a run, with the data-model invariant at hand. *)
Lemma run_preserves (P : tdlchar -> Prop) :
  (forall st o st', wf_state st -> P st -> step st o = Done st' -> P st') ->
  forall ops st st',
    wf_state st /\ no_lowercase st -> P st -> run ops st = Done st' -> P st'.
Proof.
  intros Hstep. induction ops as [|o ops IH]; intros st st' Hinv HP Hrun; simpl in Hrun.
  - injection Hrun as <-. exact HP.
  - destruct (step st o) as [st1|] eqn:Hst; [|discriminate]. simpl in Hrun.
    apply (IH st1 st'); [|eapply Hstep; [apply Hinv|exact HP|exact Hst]|exact Hrun].
    eapply step_invariant; eassumption.
Qed.

(** What a defined [strlen] tells about the array. *)
Lemma strlen_Done s : forall n,
  strlen s = Done n ->
  (n < length s)%nat /\ s !! n = Some 0 /\ no_zero_byte (take n s) /\
  cstring_length s = n.
Proof.
  induction s as [|c s IH]; intros n Hn; simpl in Hn; [discriminate|].
  destruct (c =? 0) eqn:Hc.
  - injection Hn as <-. apply Z.eqb_eq in Hc. subst c. simpl.
    split; [lia|]. split; [reflexivity|]. split; [constructor|reflexivity].
  - destruct (strlen s) as [k|] eqn:Hk; [|discriminate]. simpl in Hn.
    injection Hn as <-. destruct (IH k eq_refl) as (Hlt & Hz & Hnz & Hlen).
    simpl. rewrite Hc. split; [lia|]. split; [exact Hz|].
    split; [constructor; [by apply Z.eqb_neq|exact Hnz]|by rewrite Hlen].
Qed.

(** X12: the data-model invariant holds in every state the driver reaches
    from its initial state without leaving the array: [message] has its
    256 bytes and [size_of_message] is between 0 and 255. *)
Theorem reachable_well_formed (ops : list op) (st : tdlchar) :
  run ops init_state = Done st ->
  length (message st) = MESSAGE_SIZE /\ 0 <= size_of_message st <= 255.
Proof.
  intros Hrun.
  destruct (run_invariant ops init_state st init_state_invariant Hrun) as [Hwf _].
  exact Hwf.
Qed.

Lemma reachable_well_formed_witness :
  exists st,
    run [Open 1; Write (replicate 255 97); Write abc; Read [] 0] init_state = Done st /\
    length (message st) = MESSAGE_SIZE /\ 0 <= size_of_message st <= 255.
Proof.
  eexists. split; [by_running|].
  apply (reachable_well_formed [Open 1; Write (replicate 255 97); Write abc; Read [] 0]).
  by_running.
Defined.

Lemma step_terminated st o st' :
  wf_state st -> terminated st -> step st o = Done st' -> terminated st'.
Proof.
  intros [Hmsg Hsz] (n & Hn & Hle) Hstep.
  destruct o as [current|buffer len|buffer|]; simpl in Hstep.
  - injection Hstep as <-. destruct (dev_open_store current st) as [Hm Hs].
    exists n. rewrite Hm, Hs. done.
  - injection Hstep as <-.
    destruct (dev_read_state st buffer len) as [-> | ->]; exists n; simpl; [|done].
    split; [exact Hn|lia].
  - destruct (decide (length buffer < MESSAGE_SIZE)%nat) as [Hlen|Hlen].
    + rewrite dev_write_inside in Hstep by done. injection Hstep as <-.
      exists (cstring_length buffer). simpl.
      rewrite strlen_terminated, cstring_length_toupper. done.
    + rewrite dev_write_outside in Hstep by (done || lia). discriminate.
  - injection Hstep as <-. exists n. done.
Qed.

(** X13: in every state reached from the initial state, [message] holds a
    zero byte inside its 256 bytes, [size_of_message] does not reach past
    the first one, and so the stored message contains no zero byte. *)
Theorem stored_is_a_string (ops : list op) (st : tdlchar) :
  run ops init_state = Done st ->
  exists n,
    strlen (message st) = Done n /\
    (n < MESSAGE_SIZE)%nat /\
    size_of_message st <= Z.of_nat n /\
    no_zero_byte (stored st).
Proof.
  intros Hrun.
  assert (Hterm : terminated st).
  { apply (run_preserves terminated step_terminated ops init_state st
             init_state_invariant); [|exact Hrun].
    exists 0%nat. split; [reflexivity|simpl; lia]. }
  destruct (run_invariant ops init_state st init_state_invariant Hrun) as [[Hmsg Hsz] _].
  destruct Hterm as (n & Hn & Hle). exists n.
  destruct (strlen_Done _ _ Hn) as (Hlt & _ & Hnz & _).
  split; [exact Hn|]. split; [lia|]. split; [exact Hle|].
  unfold stored, no_zero_byte.
  replace (take (Z.to_nat (size_of_message st)) (message st))
    with (take (Z.to_nat (size_of_message st)) (take n (message st)))
    by (rewrite take_take; f_equal; lia).
  apply Forall_take. exact Hnz.
Qed.

Lemma stored_is_a_string_witness :
  exists n,
    strlen (message session_end) = Done n /\
    (n < MESSAGE_SIZE)%nat /\
    size_of_message session_end <= Z.of_nat n /\
    no_zero_byte (stored session_end).
Proof.
  apply (stored_is_a_string session_ops session_end). by_running.
Defined.

(** * Module load and unload *)

Lemma take_out_head r l : take_out r (r :: l) = Some l.
Proof. simpl. rewrite decide_True by reflexivity. reflexivity. Qed.

Lemma release_newest r l s :
  release r {| live := r :: l; stray := s |} = {| live := l; stray := s |}.
Proof. unfold release. simpl. rewrite decide_True by reflexivity. reflexivity. Qed.

(** An error pointer read back as an [int]: the errno it carries. *)
Lemma PTR_ERR_int ptr :
  0 <= ptr < 2 ^ 64 ->
  IS_ERR ptr = true ->
  C.to_int (PTR_ERR ptr) = ptr - 2 ^ 64 /\ - MAX_ERRNO <= ptr - 2 ^ 64 < 0.
Proof.
  intros Hptr Herr. unfold IS_ERR in Herr. apply Z.leb_le in Herr.
  unfold MAX_ERRNO in *.
  assert (Hlong : PTR_ERR ptr = ptr - 2 ^ 64).
  { unfold PTR_ERR, to_long.
    replace (ptr + 2 ^ 63) with (ptr - 2 ^ 64 + 2 ^ 63 + 1 * 2 ^ 64) by lia.
    rewrite Z_mod_plus_full. rewrite Z.mod_small; lia. }
  rewrite Hlong. split; [apply to_int_small|]; lia.
Qed.

(** X15: when [tdlchar_init] fails it undoes what it had registered: for
    whatever the kernel returns, a non-zero return value comes with calls
    that leave nothing registered and release nothing twice. *)
Theorem tdlchar_init_failure_cleans_up (chrdev_ret class_ret device_ret : Z) :
  snd (tdlchar_init chrdev_ret class_ret device_ret) <> 0 ->
  kernel_after (snd (fst (tdlchar_init chrdev_ret class_ret device_ret))) no_resources
  = no_resources.
Proof.
  unfold tdlchar_init, kernel_after, no_resources.
  destruct (C.to_int chrdev_ret <? 0) eqn:Hmajor; simpl.
  - intros _. rewrite Hmajor. reflexivity.
  - destruct (IS_ERR class_ret) eqn:Hclass; simpl.
    + intros _. rewrite Hmajor, Hclass. unfold acquire. simpl.
      apply release_newest.
    + destruct (IS_ERR device_ret) eqn:Hdevice; simpl.
      * intros _. rewrite Hmajor, Hclass, Hdevice. unfold acquire. simpl.
        rewrite release_newest. apply release_newest.
      * intros Hret. contradiction.
Qed.

Lemma tdlchar_init_failure_cleans_up_witness :
  snd (tdlchar_init 240 5000 (ERR_PTR (-12))) = -12 /\
  kernel_after (snd (fst (tdlchar_init 240 5000 (ERR_PTR (-12))))) no_resources
  = no_resources.
Proof.
  split; [by_running|].
  apply (tdlchar_init_failure_cleans_up 240 5000 (ERR_PTR (-12))).
  vm_compute. discriminate.
Defined.

(** X16: the return value of [tdlchar_init] tells what happened: it is 0
    exactly when all three registrations succeeded; otherwise it is the
    negative error of the first one that failed, the value of
    [register_chrdev] or the errno carried by the error pointer. *)
Theorem tdlchar_init_return (chrdev_ret class_ret device_ret : Z) :
  - 2 ^ 31 <= chrdev_ret < 2 ^ 31 ->
  0 <= class_ret < 2 ^ 64 ->
  0 <= device_ret < 2 ^ 64 ->
  (snd (tdlchar_init chrdev_ret class_ret device_ret) = 0 <->
   0 <= chrdev_ret /\ IS_ERR class_ret = false /\ IS_ERR device_ret = false) /\
  (chrdev_ret < 0 ->
   snd (tdlchar_init chrdev_ret class_ret device_ret) = chrdev_ret) /\
  (0 <= chrdev_ret -> IS_ERR class_ret = true ->
   snd (tdlchar_init chrdev_ret class_ret device_ret) = class_ret - 2 ^ 64) /\
  (0 <= chrdev_ret -> IS_ERR class_ret = false -> IS_ERR device_ret = true ->
   snd (tdlchar_init chrdev_ret class_ret device_ret) = device_ret - 2 ^ 64) /\
  - 2 ^ 31 <= snd (tdlchar_init chrdev_ret class_ret device_ret) <= 0.
Proof.
  intros Hchr Hcls Hdev. unfold tdlchar_init.
  rewrite (to_int_small chrdev_ret) by lia.
  destruct (chrdev_ret <? 0) eqn:Hmajor; simpl.
  - apply Z.ltb_lt in Hmajor. intuition first [lia | congruence].
  - apply Z.ltb_ge in Hmajor.
    destruct (IS_ERR class_ret) eqn:Hclass; simpl.
    + destruct (PTR_ERR_int class_ret Hcls Hclass) as [-> Hrange].
      unfold MAX_ERRNO in Hrange. intuition first [lia | congruence].
    + destruct (IS_ERR device_ret) eqn:Hdevice; simpl.
      * destruct (PTR_ERR_int device_ret Hdev Hdevice) as [-> Hrange].
        unfold MAX_ERRNO in Hrange. intuition first [lia | congruence].
      * intuition first [lia | congruence].
Qed.

Lemma tdlchar_init_return_witness :
  snd (tdlchar_init (-16) 5000 6000) = -16 /\
  snd (tdlchar_init 240 (ERR_PTR (-12)) 6000) = -12 /\
  snd (tdlchar_init 240 5000 (ERR_PTR (-19))) = -19 /\
  snd (tdlchar_init 240 5000 6000) = 0.
Proof.
  destruct (tdlchar_init_return (-16) 5000 6000) as (_ & H1 & _);
    [lia|lia|lia|].
  destruct (tdlchar_init_return 240 (ERR_PTR (-12)) 6000) as (_ & _ & H2 & _);
    [lia|vm_compute; split; [discriminate|reflexivity]|lia|].
  destruct (tdlchar_init_return 240 5000 (ERR_PTR (-19))) as (_ & _ & _ & H3 & _);
    [lia|lia|vm_compute; split; [discriminate|reflexivity]|].
  destruct (tdlchar_init_return 240 5000 6000) as (H4 & _); [lia|lia|lia|].
  split; [apply H1; lia|]. split; [apply H2; [lia|reflexivity]|].
  split; [apply H3; [lia|reflexivity|reflexivity]|].
  apply H4. split; [lia|]. split; reflexivity.
Defined.

(** X17: load then unload.  When all three registrations succeed,
    [tdlchar_init] returns 0 and leaves the character device number, the
    class, the device node (under the 32-bit device number made from the
    major) and the mutex registered; the calls of [tdlchar_exit] then
    leave nothing registered, and they release the class twice, by
    [class_unregister] and again by [class_destroy]. *)
Theorem load_then_unload (chrdev_ret class_ret device_ret : Z) :
  0 <= chrdev_ret < 2 ^ 31 ->
  IS_ERR class_ret = false ->
  IS_ERR device_ret = false ->
  exists g calls,
    tdlchar_init chrdev_ret class_ret device_ret = (g, calls, 0) /\
    majorNumber g = chrdev_ret /\
    kernel_after calls no_resources =
      {| live := [Mutex; Device class_ret (MKDEV chrdev_ret 0);
                  Class class_ret; Chrdev chrdev_ret];
         stray := [] |} /\
    kernel_after (calls ++ tdlchar_exit g) no_resources =
      {| live := []; stray := [Class class_ret] |}.
Proof.
  intros Hchr Hcls Hdev. unfold tdlchar_init.
  assert (Hint : C.to_int chrdev_ret = chrdev_ret) by (apply to_int_small; lia).
  rewrite Hint, Hcls, Hdev.
  replace (chrdev_ret <? 0) with false by (symmetry; apply Z.ltb_ge; lia).
  do 2 eexists. split; [reflexivity|]. split; [reflexivity|].
  assert (Hmajor : (chrdev_ret <? 0) = false) by (apply Z.ltb_ge; lia).
  split.
  - unfold kernel_after. simpl. rewrite Hint, Hmajor, Hcls, Hdev. reflexivity.
  - unfold kernel_after, tdlchar_exit. simpl. rewrite Hint, Hmajor, Hcls, Hdev.
    unfold acquire. simpl. rewrite !release_newest.
    unfold release. simpl. rewrite decide_True by reflexivity. reflexivity.
Qed.

Lemma load_then_unload_witness :
  exists g calls,
    tdlchar_init 5000 7000 6000 = (g, calls, 0) /\
    majorNumber g = 5000 /\
    kernel_after calls no_resources =
      {| live := [Mutex; Device 7000 947912704; Class 7000; Chrdev 5000];
         stray := [] |} /\
    kernel_after (calls ++ tdlchar_exit g) no_resources =
      {| live := []; stray := [Class 7000] |}.
Proof.
  apply (load_then_unload 5000 7000 6000); [lia|reflexivity|reflexivity].
Defined.

(** * The client against the driver *)

Lemma sys_open_free current dev :
  tdlchar_mutex dev = None ->
  - 2 ^ 31 <= numberOpens dev < 2 ^ 31 - 1 ->
  sys_open current dev = (3, 0, held_by current dev).
Proof.
  intros Hfree Hcount. unfold sys_open, dev_open, mutex_trylock.
  rewrite Hfree, to_int_small by lia. reflexivity.
Qed.

Lemma sys_open_busy current dev owner :
  tdlchar_mutex dev = Some owner ->
  sys_open current dev = (-1, C.EBUSY, dev).
Proof.
  intros Hheld. unfold sys_open, dev_open, mutex_trylock.
  rewrite Hheld. reflexivity.
Qed.

#[local] Arguments replicate : simpl never.

(** The run of the client on a free device, in full. *)
Lemma main_on_free perror current stringToSend dev n :
  length (message dev) = MESSAGE_SIZE ->
  tdlchar_mutex dev = None ->
  - 2 ^ 31 <= numberOpens dev < 2 ^ 31 - 1 ->
  (length stringToSend <= BUFFER_LENGTH)%nat ->
  strlen stringToSend = Done n ->
  main perror current stringToSend dev =
  Done {| exit_status := 0;
          fd := 3;
          receive := map toupper (take n stringToSend)
                     ++ replicate (BUFFER_LENGTH - n) 0;
          device := drained (written (held_by current dev) (take n stringToSend)) |}.
Proof.
  intros Hmsg Hfree Hcount Harr Hn.
  destruct (strlen_Done _ _ Hn) as (Hlt & _ & Hnz & _).
  assert (Hlen : length (take n stringToSend) = n) by (rewrite length_take; lia).
  assert (Hsz : size_of_message (written (held_by current dev) (take n stringToSend))
                = Z.of_nat n).
  { simpl. rewrite cstring_length_no_zero by done. by rewrite Hlen. }
  unfold main. rewrite sys_open_free by done. simpl.
  rewrite Hn. simpl. unfold sys_write.
  rewrite dev_write_inside
    by (simpl; unfold MESSAGE_SIZE, BUFFER_LENGTH in *; lia || done).
  simpl. rewrite Hlen.
  assert (Hpos : (Z.of_nat n <? 0) = false) by (apply Z.ltb_ge; lia).
  rewrite ?Hpos. unfold sys_read.
  rewrite dev_read_copied; cycle 1.
  - rewrite Hsz. unfold BUFFER_LENGTH in Harr. lia.
  - rewrite Hsz, Nat2Z.id, length_replicate. lia.
  - simpl. rewrite ?Hpos, written_stored_no_zero by done.
    rewrite Nat2Z.id, cstring_length_no_zero, Hlen by done.
    rewrite drop_replicate. reflexivity.
Qed.

(** X18: end to end.  On a free device, for every content of
    [stringToSend] with its terminator inside the 256-byte array, the
    client exits with status 0 and [receive] holds the upper-cased string,
    followed by zero bytes only: read as a C string, [receive] is exactly
    the transform of what was sent.  The driver copies no terminator; it is
    the zero-filled static array that ends the string. *)
Theorem client_round_trip (perror : Z -> Z) (current : nat) (stringToSend : list Z)
  (dev : tdlchar) (n : nat) :
  length (message dev) = MESSAGE_SIZE ->
  tdlchar_mutex dev = None ->
  - 2 ^ 31 <= numberOpens dev < 2 ^ 31 - 1 ->
  (length stringToSend <= BUFFER_LENGTH)%nat ->
  strlen stringToSend = Done n ->
  exists c,
    main perror current stringToSend dev = Done c /\
    exit_status c = 0 /\
    length (receive c) = BUFFER_LENGTH /\
    strlen (receive c) = Done n /\
    take n (receive c) = map toupper (take n stringToSend) /\
    drop n (receive c) = replicate (BUFFER_LENGTH - n) 0 /\
    size_of_message (device c) = 0 /\
    tdlchar_mutex (device c) = Some current.
Proof.
  intros Hmsg Hfree Hcount Harr Hn.
  destruct (strlen_Done _ _ Hn) as (Hlt & _ & Hnz & _).
  assert (Hlen : length (map toupper (take n stringToSend)) = n)
    by (rewrite length_map, length_take; lia).
  eexists. split; [by apply main_on_free|]. simpl.
  split; [reflexivity|]. unfold BUFFER_LENGTH in *.
  split; [rewrite length_app, length_replicate, Hlen; lia|].
  split; [|split; [|split; [|done]]].
  - replace (256 - n)%nat with (S (255 - n)) by lia.
    change (replicate (S (255 - n)) 0) with (0 :: replicate (255 - n) 0).
    rewrite strlen_terminated, cstring_length_toupper.
    rewrite cstring_length_no_zero by done. rewrite length_take. f_equal. lia.
  - rewrite take_app_length'; [reflexivity|by rewrite Hlen].
  - rewrite drop_app_length'; [reflexivity|by rewrite Hlen].
Qed.

Lemma client_round_trip_witness :
  exists c,
    main (fun _ => 22) 1 hello_todd init_state = Done c /\
    exit_status c = 0 /\
    take 10 (receive c) = [72; 69; 76; 76; 79; 32; 84; 79; 68; 68] /\
    strlen (receive c) = Done 10%nat.
Proof.
  destruct (client_round_trip (fun _ => 22) 1 hello_todd init_state 10)
    as (c & Hrun & Hexit & _ & Hstr & Htake & _).
  - reflexivity.
  - reflexivity.
  - simpl. lia.
  - vm_compute. lia.
  - by_running.
  - exists c. split; [exact Hrun|]. split; [exact Hexit|]. split; [exact Htake|exact Hstr].
Defined.

(** X19: a client that finds the device held by another session gives up
    at once: [main] never writes or reads, leaves [receive] zero-filled and
    the device exactly as it was, and returns what [errno] holds after
    [perror]: [EBUSY] when [perror] leaves [errno] as the failed open set
    it, another value when [perror] overwrites it. *)
Theorem client_busy (perror : Z -> Z) (current owner : nat) (stringToSend : list Z)
  (dev : tdlchar) :
  tdlchar_mutex dev = Some owner ->
  main perror current stringToSend dev =
    Done {| exit_status := perror C.EBUSY; fd := -1;
            receive := replicate BUFFER_LENGTH 0; device := dev |} /\
  (perror C.EBUSY = C.EBUSY ->
   main perror current stringToSend dev =
     Done {| exit_status := C.EBUSY; fd := -1;
             receive := replicate BUFFER_LENGTH 0; device := dev |}).
Proof.
  intros Hheld.
  assert (Hrun : main perror current stringToSend dev =
            Done {| exit_status := perror C.EBUSY; fd := -1;
                    receive := replicate BUFFER_LENGTH 0; device := dev |}).
  { unfold main. rewrite (sys_open_busy current dev owner Hheld). reflexivity. }
  split; [exact Hrun|]. intros Hkeep. rewrite Hrun, Hkeep. reflexivity.
Qed.

Lemma client_busy_witness :
  main (fun errno => errno) 2 hello_todd opened =
    Done {| exit_status := 16; fd := -1;
            receive := replicate BUFFER_LENGTH 0; device := opened |} /\
  main (fun _ => 22) 2 hello_todd opened =
    Done {| exit_status := 22; fd := -1;
            receive := replicate BUFFER_LENGTH 0; device := opened |}.
Proof.
  destruct (client_busy (fun errno => errno) 2 1 hello_todd opened eq_refl)
    as [_ Hkept].
  destruct (client_busy (fun _ => 22) 2 1 hello_todd opened eq_refl)
    as [Hover _].
  split; [apply Hkept; reflexivity|exact Hover].
Defined.

(** X20: clients one after the other.  When the first client has run and
    its process has ended, the device is free again with an empty store,
    and a second client gets its own string back upper-cased, whatever the
    first one sent and however long it was; each run counts one open. *)
Theorem clients_in_sequence (perror : Z -> Z) (p1 p2 : nat) (s1 s2 : list Z)
  (dev : tdlchar) (n1 n2 : nat) :
  length (message dev) = MESSAGE_SIZE ->
  tdlchar_mutex dev = None ->
  - 2 ^ 31 <= numberOpens dev < 2 ^ 31 - 2 ->
  (length s1 <= BUFFER_LENGTH)%nat ->
  (length s2 <= BUFFER_LENGTH)%nat ->
  strlen s1 = Done n1 ->
  strlen s2 = Done n2 ->
  exists c1 c2,
    main perror p1 s1 dev = Done c1 /\
    tdlchar_mutex (process_exit c1) = None /\
    size_of_message (process_exit c1) = 0 /\
    main perror p2 s2 (process_exit c1) = Done c2 /\
    exit_status c2 = 0 /\
    receive c2 = map toupper (take n2 s2) ++ replicate (BUFFER_LENGTH - n2) 0 /\
    tdlchar_mutex (process_exit c2) = None /\
    numberOpens (process_exit c2) = numberOpens dev + 2.
Proof.
  intros Hmsg Hfree Hcount Harr1 Harr2 Hn1 Hn2.
  destruct (strlen_Done _ _ Hn1) as (Hlt1 & _).
  assert (Hlen1 : (length (take n1 s1) < MESSAGE_SIZE)%nat)
    by (rewrite length_take; unfold BUFFER_LENGTH, MESSAGE_SIZE in *; lia).
  do 2 eexists. split; [apply main_on_free; [done|done|lia|done|exact Hn1]|].
  unfold process_exit at 1 2 3. simpl.
  split; [reflexivity|]. split; [reflexivity|].
  split; [apply main_on_free; simpl; try done|].
  - rewrite length_app, length_map. simpl. rewrite length_drop.
    rewrite Hmsg. unfold MESSAGE_SIZE in *. lia.
  - lia.
  - simpl. split; [reflexivity|]. split; [reflexivity|].
    split; [reflexivity|]. lia.
Qed.

Lemma clients_in_sequence_witness :
  exists c1 c2,
    main (fun _ => 22) 1 hello_todd init_state = Done c1 /\
    main (fun _ => 22) 2 ([104; 105] ++ replicate 254 0) (process_exit c1) = Done c2 /\
    exit_status c2 = 0 /\
    receive c2 = [72; 73] ++ replicate 254 0 /\
    numberOpens (process_exit c2) = 2.
Proof.
  destruct (clients_in_sequence (fun _ => 22) 1 2 hello_todd ([104; 105] ++ replicate 254 0)
              init_state 10 2)
    as (c1 & c2 & H1 & _ & _ & H2 & Hexit & Hrecv & _ & Hcount).
  - reflexivity.
  - reflexivity.
  - simpl. lia.
  - vm_compute. lia.
  - vm_compute. lia.
  - by_running.
  - by_running.
  - exists c1, c2. split; [exact H1|]. split; [exact H2|]. split; [exact Hexit|].
    split; [exact Hrecv|exact Hcount].
Defined.
